(** * Logistics operations queue: FIFO buffer and order life cycle

    Shallow embedding of [custom_queue.py] (class [Queue]) and of
    [logistics_tracker.py] (the status state machine, the order generator
    and the order processor), with the properties of the design document
    proved over the embedded code.

    Python values.  The only dynamic feature the two files depend on is that
    [None] is a value like any other: it can be stored in the queue, it is
    what [dequeue] returns on an empty buffer, and it is the successor of the
    terminal status in the transition table.  A Python value that is either
    [None] or an object of type [A] is therefore embedded as [option A], with
    Rocq's [None] standing for Python's. *)

From Stdlib Require Import String Ascii DecimalString.
From Stdlib Require Import ZArith Lia Bool Arith List.
Import ListNotations.

Set Implicit Arguments.

(* ====================================================================== *)
(** * custom_queue.py *)
(* ====================================================================== *)

Module CustomQueue.

Section QueueCode.

(** Type of the objects stored in the queue, [None] excluded. *)
Variable A : Type.

(** A stored value: [None] or an object. *)
Definition item := option A.

(** Instance state of [class Queue].  [_buffer] is the Python list: index
    0 first.  The [threading.Lock] held in [_lock] is taken and released
    inside every method and is free between two calls, so one method body
    is one atomic step on [_buffer]; the lock carries no other state. *)
Record Queue : Type := mkQueue { _buffer : list item }.

(** [Queue.__init__]: [self._buffer = []]. *)
Definition __init__ : Queue := mkQueue [].

(** [Queue._is_empty_unsafe]: [len(self._buffer) == 0]. *)
Definition _is_empty_unsafe (self : Queue) : bool :=
  Nat.eqb (length (_buffer self)) 0.

(** [Queue.enqueue]: [self._buffer.insert(0, value)]. *)
Definition enqueue (self : Queue) (value : item) : Queue :=
  mkQueue (value :: _buffer self).

(** [Queue.dequeue]: [self._buffer.pop()] (the last element, which is also
    removed) when the buffer is not empty, [None] otherwise.  The result is
    the returned value paired with the queue after the call. *)
Definition dequeue (self : Queue) : item * Queue :=
  if negb (_is_empty_unsafe self)
  then (last (_buffer self) None, mkQueue (removelast (_buffer self)))
  else (None, self).

(** [Queue.is_empty]. *)
Definition is_empty (self : Queue) : bool := _is_empty_unsafe self.

(** [Queue.size]: [len(self._buffer)], a Python int. *)
Definition size (self : Queue) : Z := Z.of_nat (length (_buffer self)).

(** [Queue.__repr__] lists [reversed(self._buffer)]: the stored items,
    oldest first. *)
Definition repr_items (self : Queue) : list item := rev (_buffer self).

(** ** Straight-line clients of the queue *)

(** [for v in values: q.enqueue(v)]. *)
Fixpoint enqueue_all (values : list item) (q : Queue) : Queue :=
  match values with
  | [] => q
  | v :: rest => enqueue_all rest (enqueue q v)
  end.

(** [n] successive calls of [q.dequeue()], with the returned values in call
    order. *)
Fixpoint dequeue_n (n : nat) (q : Queue) : list item * Queue :=
  match n with
  | O => ([], q)
  | S k =>
      let (v, q1) := dequeue q in
      let (vs, q2) := dequeue_n k q1 in
      (v :: vs, q2)
  end.

(** One call made by a sequential client. *)
Inductive op : Type :=
| Enq (value : item)
| Deq.

(** What a call did: an [enqueue] completed, or a [dequeue] returned
    [result]; [removed] tells whether [dequeue] took the branch that pops
    an item off the buffer. *)
Inductive reply : Type :=
| Enqueued (value : item)
| Dequeued (removed : bool) (result : item).

Definition step (q : Queue) (o : op) : reply * Queue :=
  match o with
  | Enq v => (Enqueued v, enqueue q v)
  | Deq =>
      let (r, q') := dequeue q in
      (Dequeued (negb (_is_empty_unsafe q)) r, q')
  end.

(** The calls of [ops] in order, from state [q]. *)
Fixpoint run (ops : list op) (q : Queue) : list reply * Queue :=
  match ops with
  | [] => ([], q)
  | o :: rest =>
      let (e, q1) := step q o in
      let (es, q2) := run rest q1 in
      (e :: es, q2)
  end.

(** Values passed to the completed enqueues, in call order. *)
Fixpoint enqueued (log : list reply) : list item :=
  match log with
  | [] => []
  | Enqueued v :: rest => v :: enqueued rest
  | Dequeued _ _ :: rest => enqueued rest
  end.

(** Values handed out by the dequeues that removed an item, in call
    order. *)
Fixpoint served (log : list reply) : list item :=
  match log with
  | [] => []
  | Dequeued true r :: rest => r :: served rest
  | _ :: rest => served rest
  end.

(** [repr(x)] of a stored value, given [repr] on the objects. *)
Definition repr_item (repr_obj : A -> string) (v : item) : string :=
  match v with
  | None => "None"%string
  | Some a => repr_obj a
  end.

(** [Queue.__repr__]: [f"Queue({list(reversed(self._buffer))})"].  A list is
    printed as its items' [repr], separated by a comma and a space, between
    square brackets. *)
Definition __repr__ (repr_obj : A -> string) (self : Queue) : string :=
  ("Queue(" ++ "[" ++ String.concat ", " (map (repr_item repr_obj)
                                              (rev (_buffer self)))
            ++ "]" ++ ")")%string.

End QueueCode.

Arguments __init__ {A}.
Arguments Deq {A}.

End CustomQueue.

(* ====================================================================== *)
(** * logistics_tracker.py *)
(* ====================================================================== *)

Module LogisticsTracker.

Import CustomQueue.
Local Open Scope string_scope.

(** ** Values, exceptions *)

(** A raised Python exception: the name of its class and its message. *)
Record exn : Type := mkExn { exn_class : string; exn_msg : string }.

Definition ValueError (msg : string) : exn := mkExn "ValueError" msg.
Definition TypeError (msg : string) : exn := mkExn "TypeError" msg.

(** Result of a call that reads no state: a returned value or a raised
    exception. *)
Inductive result (A : Type) : Type :=
| Return (a : A)
| Raise (e : exn).
Arguments Raise {A}.

(** A status value is a [str] or [None]. *)
Definition status_value := option string.

(** [str(v)], as an f-string formats it. *)
Definition py_str (v : status_value) : string :=
  match v with
  | Some s => s
  | None => "None"
  end.

(** [str(n)] for an int. *)
Definition str_int (n : Z) : string := NilZero.string_of_int (Z.to_int n).

(** The one-character string written [\n] in the source. *)
Definition nl : string := String (ascii_of_nat 10) EmptyString.

(** ** State machine *)

(** [STATUS_TRANSITIONS], a dict literal: keys in insertion order. *)
Definition STATUS_TRANSITIONS : list (string * status_value) :=
  [ ("Not Shipped",        Some "In-Transit");
    ("In-Transit",         Some "Waiting to Offload");
    ("Waiting to Offload", Some "Offloaded");
    ("Offloaded",          None) ].

(** [STATUS_ORDER = list(STATUS_TRANSITIONS.keys())]. *)
Definition STATUS_ORDER : list string := map fst STATUS_TRANSITIONS.

(** [key == current] for a [str] key of the table. *)
Definition key_eqb (key : string) (current : status_value) : bool :=
  match current with
  | Some s => String.eqb key s
  | None => false
  end.

(** Dict lookup: [Some v] when [current] is a key bound to [v], [None] when
    it is not a key. *)
Fixpoint dict_find (d : list (string * status_value)) (current : status_value)
  : option status_value :=
  match d with
  | [] => None
  | (k, v) :: rest => if key_eqb k current then Some v else dict_find rest current
  end.

(** [next_status].  The test [current not in STATUS_TRANSITIONS] and the
    subscript [STATUS_TRANSITIONS[current]] read the same table, which nothing
    writes: they are one lookup here. *)
Definition next_status (current : status_value) : result status_value :=
  match dict_find STATUS_TRANSITIONS current with
  | None => Raise (ValueError ("Unknown status: '" ++ py_str current ++ "'"))
  | Some successor => Return successor
  end.

(** ** Orders *)

(** An element of [ORDERS]: a dict with the keys [order_id] and
    [destination]. *)
Record order_record : Type :=
  mkRecord { record_order_id : string; record_destination : string }.

(** An order in flight: the same dict with the key [status] added. *)
Record order : Type :=
  mkOrder { order_id : string; destination : string; status : status_value }.

Definition ORDERS : list order_record :=
  [ mkRecord "68862131" "Cairo";
    mkRecord "68862132" "Dubai";
    mkRecord "68862133" "Jeddah";
    mkRecord "68862134" "Ryadh";
    mkRecord "68862135" "Luxor" ].

(** [{**order_data, "status": "Not Shipped"}]. *)
Definition with_initial_status (order_data : order_record) : order :=
  mkOrder (record_order_id order_data) (record_destination order_data)
          (Some "Not Shipped").

(** [order["status"] = new_status]. *)
Definition set_status (o : order) (new_status : status_value) : order :=
  mkOrder (order_id o) (destination o) new_status.

(** ** Effects *)

(** Everything the two thread bodies do to the outside, in program order:
    console lines, sleeps (in milliseconds), calls on the shared queue with
    what they passed or got back, and writes to the [status] key of the order
    being processed. *)
Inductive event : Type :=
| Print (line : string)
| Sleep (millis : Z)
| QEnqueue (value : option order)
| QIsEmpty (answer : bool)
| QDequeue (answer : option order)
| SetStatus (new_status : status_value).

(** The shared queue and the effects so far, oldest first. *)
Record world : Type := mkWorld { queue : Queue order; trace : list event }.

(** How a run of a thread body ends.  [OutOfFuel] stands for a [while] loop
    that is still running when the step budget is spent. *)
Inductive outcome (A : Type) : Type :=
| Ok (a : A) (w : world)
| Raised (e : exn) (w : world)
| OutOfFuel.
Arguments Raised {A}.
Arguments OutOfFuel {A}.

Definition M (A : Type) : Type := world -> outcome A.

Definition ret {A : Type} (a : A) : M A := fun w => Ok a w.

Definition bind {A B : Type} (c : M A) (k : A -> M B) : M B :=
  fun w =>
    match c w with
    | Ok a w' => k a w'
    | Raised e w' => Raised e w'
    | OutOfFuel => OutOfFuel
    end.

Notation "x <- c ;; k" := (bind c (fun x => k))
  (at level 61, c at next level, right associativity).
Notation "c ;; k" := (bind c (fun _ => k))
  (at level 61, right associativity).

Definition raise {A : Type} (e : exn) : M A := fun w => Raised e w.

Definition out_of_fuel {A : Type} : M A := fun _ => OutOfFuel.

Definition lift {A : Type} (r : result A) : M A :=
  match r with
  | Return a => ret a
  | Raise e => raise e
  end.

Definition emit (e : event) : M unit :=
  fun w => Ok tt (mkWorld (queue w) (trace w ++ [e])).

(** [print(line)]. *)
Definition print (line : string) : M unit := emit (Print line).

(** [time.sleep(millis / 1000)]. *)
Definition sleep (millis : Z) : M unit := emit (Sleep millis).

(** [q.enqueue(value)]. *)
Definition q_enqueue (value : option order) : M unit :=
  fun w => Ok tt (mkWorld (enqueue (queue w) value) (trace w ++ [QEnqueue value])).

(** [q.is_empty()]. *)
Definition q_is_empty : M bool :=
  fun w =>
    let b := is_empty (queue w) in
    Ok b (mkWorld (queue w) (trace w ++ [QIsEmpty b])).

(** [q.dequeue()]. *)
Definition q_dequeue : M (option order) :=
  fun w =>
    let (r, q') := dequeue (queue w) in
    Ok r (mkWorld q' (trace w ++ [QDequeue r])).

(** ** Printing *)

(** [SEPARATOR = "-" * 55]. *)
Definition SEPARATOR : string := String.concat "" (repeat "-" 55).

(** The f-string of [print_status]. *)
Definition status_line (o : order) (event : string) : string :=
  "[" ++ event ++ "] ORD-" ++ order_id o ++ " | " ++ destination o
  ++ " | Status: " ++ py_str (status o).

(** [print_status(order, event)]. *)
Definition print_status (o : order) (event : string) : M unit :=
  print (status_line o event).

(** ** Thread 1: the order generator *)

(** Body of [for order_data in ORDERS], over the records still to come. *)
Fixpoint generate_loop (source : list order_record) : M unit :=
  match source with
  | [] => ret tt
  | order_data :: rest =>
      let o := with_initial_status order_data in
      print_status o "DISPATCH" ;;
      q_enqueue (Some o) ;;
      sleep 1000 ;;
      generate_loop rest
  end.

(** [generate_orders(q, total_orders)].  [source] is the value of the module
    global [ORDERS] that the loop iterates; the program runs it with [ORDERS]
    above.  [total_orders] is only printed. *)
Definition generate_orders (source : list order_record) (total_orders : Z)
  : M unit :=
  print SEPARATOR ;;
  print " ORDER GENERATOR STARTED" ;;
  print SEPARATOR ;;
  generate_loop source ;;
  print (nl ++ "[GENERATOR] All " ++ str_int total_orders
         ++ " orders dispatched." ++ nl).

(** ** Thread 2: the order processor *)

(** [order["status"] != "Offloaded"]. *)
Definition not_offloaded (o : order) : bool :=
  negb (key_eqb "Offloaded" (status o)).

(** The inner loop [while order["status"] != "Offloaded"], returning the
    order as the loop leaves it. *)
Fixpoint advance (fuel : nat) (o : order) : M order :=
  match fuel with
  | O => out_of_fuel
  | S fuel' =>
      if not_offloaded o then
        new_status <- lift (next_status (status o)) ;;
        let o' := set_status o new_status in
        emit (SetStatus new_status) ;;
        print_status o' "UPDATE" ;;
        sleep 1500 ;;
        advance fuel' o'
      else ret o
  end.

(** The outer loop [while processed < total_orders], returning the final
    value of the local [processed]. *)
Fixpoint process_loop (fuel : nat) (total_orders processed : Z) : M Z :=
  match fuel with
  | O => out_of_fuel
  | S fuel' =>
      if (processed <? total_orders)%Z then
        empty <- q_is_empty ;;
        if negb empty then
          picked <- q_dequeue ;;
          match picked with
          | None => raise (TypeError "'NoneType' object is not subscriptable")
          | Some o =>
              print (nl ++ "[PROCESS ] Picked up ORD-" ++ order_id o
                     ++ " → destination: " ++ destination o) ;;
              o' <- advance fuel' o ;;
              print ("[DONE    ] ORD-" ++ order_id o'
                     ++ " successfully offloaded at " ++ destination o' ++ ".") ;;
              print SEPARATOR ;;
              process_loop fuel' total_orders (processed + 1)%Z
          end
        else
          sleep 500 ;;
          process_loop fuel' total_orders processed
      else ret processed
  end.

(** [process_orders(q, total_orders)]; the value returned is the final
    [processed] (the Python function returns nothing). *)
Definition process_orders (fuel : nat) (total_orders : Z) : M Z :=
  sleep 2000 ;;
  print SEPARATOR ;;
  print " ORDER PROCESSOR STARTED" ;;
  print SEPARATOR ;;
  processed <- process_loop fuel total_orders 0%Z ;;
  print (nl ++ "✅ All " ++ str_int total_orders
         ++ " orders have been delivered and offloaded.") ;;
  ret processed.

(** ** Reading a trace *)

(** Values written to [order["status"]], in order. *)
Fixpoint status_writes (t : list event) : list status_value :=
  match t with
  | [] => []
  | SetStatus v :: rest => v :: status_writes rest
  | _ :: rest => status_writes rest
  end.

(** Number of [q.dequeue()] calls. *)
Fixpoint dequeue_calls (t : list event) : nat :=
  match t with
  | [] => O
  | QDequeue _ :: rest => S (dequeue_calls rest)
  | _ :: rest => dequeue_calls rest
  end.

(** Values passed to [q.enqueue]. *)
Fixpoint enqueue_calls (t : list event) : list (option order) :=
  match t with
  | [] => []
  | QEnqueue v :: rest => v :: enqueue_calls rest
  | _ :: rest => enqueue_calls rest
  end.

(** The effects of one pass through the body of the advance loop that
    writes [new_status] to the order [o]. *)
Definition update_events (o : order) (new_status : status_value) : list event :=
  [ SetStatus new_status;
    Print (status_line (set_status o new_status) "UPDATE");
    Sleep 1500 ].

(** Every value of the list but the first is what [next_status] returns on
    the value before it. *)
Fixpoint follows_table (visited : list status_value) : Prop :=
  match visited with
  | [] => True
  | a :: rest =>
      match rest with
      | [] => True
      | b :: _ => next_status a = Return b /\ follows_table rest
      end
  end.

(** Position of [s] in [STATUS_ORDER], when it is there. *)
Fixpoint index_of (s : string) (l : list string) : option nat :=
  match l with
  | [] => None
  | x :: rest =>
      if String.eqb x s then Some O
      else option_map S (index_of s rest)
  end.

(** [n] times [status = next_status(status)], from [s]. *)
Fixpoint iterate_next (n : nat) (s : status_value) : result status_value :=
  match n with
  | O => Return s
  | S k =>
      match next_status s with
      | Return s' => iterate_next k s'
      | Raise e => Raise e
      end
  end.

(** Answers of the [q.dequeue()] calls, in call order. *)
Fixpoint dequeue_answers (t : list event) : list (option order) :=
  match t with
  | [] => []
  | QDequeue r :: rest => r :: dequeue_answers rest
  | _ :: rest => dequeue_answers rest
  end.

(** A status value that is a key of [STATUS_TRANSITIONS]. *)
Definition known_status (v : status_value) : Prop :=
  exists s : string, v = Some s /\ In s STATUS_ORDER.

(** The statuses that the table prescribes after [v], up to the terminal
    one, following at most [n] transitions. *)
Fixpoint path_from (n : nat) (v : status_value) : list status_value :=
  match n with
  | O => []
  | S k =>
      if key_eqb "Offloaded" v then []
      else match next_status v with
           | Return v' => v' :: path_from k v'
           | Raise _ => []
           end
  end.

(** What the generator does before and after its loop, and for one record
    of its source. *)
Definition generator_banner : list event :=
  [ Print SEPARATOR; Print " ORDER GENERATOR STARTED"; Print SEPARATOR ].

Definition generator_closing (total_orders : Z) : event :=
  Print (nl ++ "[GENERATOR] All " ++ str_int total_orders
         ++ " orders dispatched." ++ nl).

Definition dispatch_events (order_data : order_record) : list event :=
  [ Print (status_line (with_initial_status order_data) "DISPATCH");
    QEnqueue (Some (with_initial_status order_data));
    Sleep 1000 ].

(** What the processor does before and after its loop, when it picks up the
    order [o], when it is done with it, and when it finds the queue empty. *)
Definition processor_banner : list event :=
  [ Sleep 2000;
    Print SEPARATOR; Print " ORDER PROCESSOR STARTED"; Print SEPARATOR ].

Definition processor_closing (total_orders : Z) : event :=
  Print (nl ++ "✅ All " ++ str_int total_orders
         ++ " orders have been delivered and offloaded.").

Definition pick_events (o : order) : list event :=
  [ QIsEmpty false;
    QDequeue (Some o);
    Print (nl ++ "[PROCESS ] Picked up ORD-" ++ order_id o
           ++ " → destination: " ++ destination o) ].

Definition done_events (o : order) : list event :=
  [ Print ("[DONE    ] ORD-" ++ order_id o
           ++ " successfully offloaded at " ++ destination o ++ ".");
    Print SEPARATOR ].

Definition poll_events : list event := [ QIsEmpty true; Sleep 500 ].

End LogisticsTracker.

(* ====================================================================== *)
(** * Properties of the queue *)
(* ====================================================================== *)

Module QueueProperties.

Import CustomQueue.

Section Fifo.

Variable A : Type.

(** Two queue states with the same stored items are the same state. *)
Lemma repr_items_inj (q1 q2 : Queue A) :
  repr_items q1 = repr_items q2 -> q1 = q2.
Proof.
  destruct q1 as [b1], q2 as [b2]; unfold repr_items; simpl; intros H.
  f_equal.
  rewrite <- (rev_involutive b1), <- (rev_involutive b2).
  now rewrite H.
Qed.

Lemma repr_items_enqueue (q : Queue A) (v : item A) :
  repr_items (enqueue q v) = repr_items q ++ [v].
Proof. reflexivity. Qed.

Lemma is_empty_repr_items (q : Queue A) :
  _is_empty_unsafe q = true <-> repr_items q = [].
Proof.
  destruct q as [b]; unfold _is_empty_unsafe, repr_items; simpl.
  rewrite Nat.eqb_eq, length_zero_iff_nil.
  split; intros H.
  - now subst.
  - apply (f_equal (@rev _)) in H. now rewrite rev_involutive in H.
Qed.

(** [dequeue] on an empty buffer: the sentinel, and the same state. *)
Lemma dequeue_empty (q : Queue A) :
  repr_items q = [] -> dequeue q = (None, q).
Proof.
  intros H. apply is_empty_repr_items in H.
  unfold dequeue. now rewrite H.
Qed.

(** [dequeue] on a buffer whose oldest item is [x]: [x] is returned and the
    younger items stay, in order. *)
Lemma dequeue_head (q : Queue A) (x : item A) (rest : list (item A)) :
  repr_items q = x :: rest ->
  _is_empty_unsafe q = false /\
  fst (dequeue q) = x /\
  repr_items (snd (dequeue q)) = rest.
Proof.
  destruct q as [b]; unfold repr_items; simpl; intros H.
  assert (Hb : b = rev rest ++ [x]).
  { rewrite <- (rev_involutive b), H. reflexivity. }
  subst b. unfold dequeue, _is_empty_unsafe; simpl.
  rewrite length_app; simpl.
  replace (length (rev rest) + 1) with (S (length (rev rest))) by lia.
  simpl. rewrite last_last, removelast_last.
  repeat split. apply rev_involutive.
Qed.

Lemma repr_items_enqueue_all (xs : list (item A)) (q : Queue A) :
  repr_items (enqueue_all xs q) = repr_items q ++ xs.
Proof.
  revert q; induction xs as [|x xs IH]; intros q; simpl.
  - now rewrite app_nil_r.
  - rewrite IH, repr_items_enqueue, <- app_assoc. reflexivity.
Qed.

Lemma dequeue_n_all (xs : list (item A)) (q : Queue A) :
  repr_items q = xs -> dequeue_n (length xs) q = (xs, __init__).
Proof.
  revert q; induction xs as [|x xs IH]; intros q H; simpl.
  - f_equal. now apply repr_items_inj.
  - destruct (dequeue_head q H) as (_ & Hv & Hq).
    destruct (dequeue q) as [v q1]; simpl in Hv, Hq.
    rewrite (IH q1 Hq). now subst.
Qed.

(** C1. FIFO: [N] calls of [enqueue] on a fresh queue, followed by [N] calls
    of [dequeue], return the enqueued values in the order they were
    enqueued ([None] values included), and leave the queue empty. *)
Theorem fifo_enqueue_then_dequeue (xs : list (item A)) :
  dequeue_n (length xs) (enqueue_all xs __init__) = (xs, __init__).
Proof.
  apply dequeue_n_all.
  now rewrite repr_items_enqueue_all.
Qed.

(** Invariant of a sequential run started in any state [q]: the dequeues
    that removed an item handed out a prefix of "items of [q], oldest first,
    then the enqueued values", and the buffer holds the rest. *)
Lemma run_invariant (ops : list (op A)) (q : Queue A) :
  let all := repr_items q ++ enqueued (fst (run ops q)) in
  let n := length (served (fst (run ops q))) in
  served (fst (run ops q)) = firstn n all /\
  repr_items (snd (run ops q)) = skipn n all /\
  n <= length all.
Proof.
  revert q; induction ops as [|o ops IH]; intros q; simpl.
  - rewrite app_nil_r. repeat split. lia.
  - destruct o as [v|]; simpl.
    + specialize (IH (enqueue q v)).
      destruct (run ops (enqueue q v)) as [es q2]; simpl in *.
      rewrite repr_items_enqueue, <- app_assoc in IH. exact IH.
    + destruct (repr_items q) as [|x rest] eqn:Hq.
      * rewrite (dequeue_empty q Hq).
        apply is_empty_repr_items in Hq as He. rewrite He; simpl.
        specialize (IH q). rewrite Hq in IH.
        destruct (run ops q) as [es q2]; simpl in *. exact IH.
      * destruct (dequeue_head q Hq) as (He & Hv & Hq1).
        destruct (dequeue q) as [v q1]; simpl in Hv, Hq1. rewrite He; simpl.
        specialize (IH q1). rewrite Hq1 in IH.
        destruct (run ops q1) as [es q2]; simpl in *.
        destruct IH as (IH1 & IH2 & IH3).
        subst v. repeat split.
        -- now rewrite <- IH1.
        -- exact IH2.
        -- lia.
Qed.

(** C7. After any sequence of [enqueue] and [dequeue] calls made one after
    the other on a fresh queue: [size()] is the number of completed enqueues
    minus the number of dequeues that took an item out of the buffer, which
    is never negative; the buffer holds exactly the values enqueued and not
    yet handed out, oldest first, the handed-out ones being the oldest, in
    order; and [is_empty()] is true exactly when that count is zero. *)
Theorem size_and_contents_after_run (ops : list (op A)) :
  let log := fst (run ops __init__) in
  let q := snd (run ops __init__) in
  size q = (Z.of_nat (length (enqueued log))
            - Z.of_nat (length (served log)))%Z /\
  (0 <= size q)%Z /\
  enqueued log = served log ++ repr_items q /\
  (is_empty q = true <->
   (Z.of_nat (length (enqueued log))
    - Z.of_nat (length (served log)) = 0)%Z).
Proof.
  intros log q.
  pose proof (run_invariant ops __init__) as H.
  cbv zeta in H. fold log q in H.
  change (repr_items __init__ ++ enqueued log) with (enqueued log) in H.
  destruct H as (H1 & H2 & H3).
  assert (Hsplit : enqueued log = served log ++ repr_items q).
  { rewrite <- (firstn_skipn (length (served log)) (enqueued log)) at 1.
    f_equal; symmetry; assumption. }
  assert (Hsize : size q = (Z.of_nat (length (enqueued log))
                            - Z.of_nat (length (served log)))%Z).
  { unfold size. rewrite <- (length_rev (_buffer q)).
    change (rev (_buffer q)) with (repr_items q).
    rewrite Hsplit at 1. rewrite length_app. lia. }
  repeat split.
  - exact Hsize.
  - unfold size. lia.
  - exact Hsplit.
  - intros He. rewrite <- Hsize. unfold size.
    unfold is_empty, _is_empty_unsafe in He.
    apply Nat.eqb_eq in He. lia.
  - intros Hz. rewrite <- Hsize in Hz. unfold size in Hz.
    unfold is_empty, _is_empty_unsafe. apply Nat.eqb_eq. lia.
Qed.

(** When no [None] is ever enqueued, the dequeues that took an item out of
    the buffer are exactly those whose result is not [None]. *)
Lemma removed_iff_not_None_from (ops : list (op A)) (q : Queue A) :
  Forall (fun v => v <> None) (repr_items q) ->
  Forall (fun o => match o with Enq v => v <> None | Deq => True end) ops ->
  Forall (fun e => match e with
                   | Enqueued _ => True
                   | Dequeued removed r => removed = true <-> r <> None
                   end) (fst (run ops q)).
Proof.
  revert q; induction ops as [|o ops IH]; intros q Hq Hops; simpl.
  - constructor.
  - inversion Hops as [|? ? Ho Hrest]; subst.
    destruct o as [v|]; simpl.
    + assert (Hq1 : Forall (fun v => v <> None) (repr_items (enqueue q v))).
      { rewrite repr_items_enqueue. apply Forall_app. split; [exact Hq|].
        now constructor. }
      specialize (IH _ Hq1 Hrest).
      destruct (run ops (enqueue q v)) as [es q2]; simpl in *.
      now constructor.
    + destruct (repr_items q) as [|x rest] eqn:Hitems.
      * rewrite (dequeue_empty q Hitems).
        apply is_empty_repr_items in Hitems as He. rewrite He; simpl.
        specialize (IH q). rewrite Hitems in IH. specialize (IH Hq Hrest).
        destruct (run ops q) as [es q2]; simpl in *.
        constructor; [|exact IH]. split; [discriminate | congruence].
      * destruct (dequeue_head q Hitems) as (He & Hv & Hq1).
        destruct (dequeue q) as [v q1]; simpl in Hv, Hq1. rewrite He; simpl.
        apply Forall_cons_iff in Hq as [Hx Hrest'].
        specialize (IH q1). rewrite Hq1 in IH. specialize (IH Hrest' Hrest).
        destruct (run ops q1) as [es q2]; simpl in *.
        constructor; [|exact IH]. subst v. split; [intros _; exact Hx | reflexivity].
Qed.

(** C8. [dequeue] on an empty queue returns [None], raises nothing, and
    leaves the queue as it was: [size()] is still 0 and [is_empty()] still
    true afterwards. *)
Theorem dequeue_on_empty (q : Queue A) :
  is_empty q = true ->
  fst (dequeue q) = None /\
  snd (dequeue q) = q /\
  size (snd (dequeue q)) = 0%Z /\
  is_empty (snd (dequeue q)) = true.
Proof.
  intros He. unfold dequeue.
  unfold is_empty in He. rewrite He; simpl.
  repeat split; try assumption.
  unfold size. unfold _is_empty_unsafe in He.
  apply Nat.eqb_eq in He. lia.
Qed.

(** C10. The sentinel is ambiguous: [None] can be enqueued, and the queue
    holding it is not empty, yet [dequeue] returns [None] on it exactly as
    it does on the empty queue; so a [None] result does not tell that the
    queue was empty. *)
Theorem none_result_is_ambiguous :
  let q : Queue A := enqueue __init__ None in
  is_empty q = false /\
  size q = 1%Z /\
  fst (dequeue q) = None /\
  fst (dequeue (@__init__ A)) = None /\
  ~ (forall q' : Queue A, fst (dequeue q') = None -> is_empty q' = true).
Proof.
  simpl. repeat split.
  intros H. specialize (H (enqueue __init__ None) eq_refl).
  discriminate H.
Qed.

End Fifo.

(** The hypothesis of [dequeue_on_empty] holds of a fresh queue. *)
Lemma dequeue_on_empty_witness :
  is_empty (@__init__ nat) = true /\
  (fst (dequeue (@__init__ nat)) = None /\
   snd (dequeue (@__init__ nat)) = __init__ /\
   size (snd (dequeue (@__init__ nat))) = 0%Z /\
   is_empty (snd (dequeue (@__init__ nat))) = true).
Proof.
  split; [reflexivity | apply (@dequeue_on_empty nat __init__); reflexivity].
Defined.

End QueueProperties.

(* ====================================================================== *)
(** * Properties of the state machine and of the two thread bodies *)
(* ====================================================================== *)

Module TrackerProperties.

Import CustomQueue LogisticsTracker.
Local Open Scope string_scope.

(** ** The transition table *)

(** The keys of the table, by position. *)
Lemma index_of_STATUS_ORDER (s : string) (i : nat) :
  index_of s STATUS_ORDER = Some i ->
  (s = "Not Shipped" /\ i = 0) \/
  (s = "In-Transit" /\ i = 1) \/
  (s = "Waiting to Offload" /\ i = 2) \/
  (s = "Offloaded" /\ i = 3).
Proof.
  unfold STATUS_ORDER; cbn -[String.eqb].
  repeat (match goal with
          | |- context [String.eqb ?k s] =>
              destruct (String.eqb_spec k s) as [<-|?]
          end; cbn -[String.eqb]);
    intros H; inversion H; subst; intuition congruence.
Qed.

Lemma In_STATUS_ORDER (s : string) :
  In s STATUS_ORDER ->
  s = "Not Shipped" \/ s = "In-Transit" \/
  s = "Waiting to Offload" \/ s = "Offloaded".
Proof.
  unfold STATUS_ORDER; simpl. intuition.
Qed.

(** A string that is no key of the table is not found in it. *)
Lemma dict_find_unknown (s : string) :
  ~ In s STATUS_ORDER -> dict_find STATUS_TRANSITIONS (Some s) = None.
Proof.
  unfold STATUS_ORDER; cbn -[String.eqb]; intros H.
  repeat (match goal with
          | |- context [String.eqb ?k s] =>
              destruct (String.eqb_spec k s) as [<-|?]
          end; cbn -[String.eqb]);
    solve [reflexivity | exfalso; apply H; auto 6].
Qed.

(** ** The advance loop, one iteration at a time *)

(** An iteration that enters the loop body and gets [s'] from
    [next_status]. *)
Lemma advance_step (fuel : nat) (o : order) (s' : status_value) (w : world) :
  not_offloaded o = true ->
  next_status (status o) = Return s' ->
  advance (S fuel) o w =
  advance fuel (set_status o s')
    (mkWorld (queue w) (trace w ++ update_events o s')).
Proof.
  intros Hne Hnext. simpl. rewrite Hne, Hnext.
  unfold bind, lift, ret, emit, print_status, print, sleep, emit; simpl.
  rewrite <- !app_assoc. reflexivity.
Qed.

(** The loop test fails: the loop is left with the order as it is. *)
Lemma advance_done (fuel : nat) (o : order) (w : world) :
  not_offloaded o = false -> advance (S fuel) o w = Ok o w.
Proof. intros H. simpl. now rewrite H. Qed.

(** The loop body raises what [next_status] raises, before any effect. *)
Lemma advance_raise (fuel : nat) (o : order) (e : exn) (w : world) :
  not_offloaded o = true ->
  next_status (status o) = Raise e ->
  advance (S fuel) o w = Raised e w.
Proof. intros Hne Hnext. simpl. now rewrite Hne, Hnext. Qed.

(** The loop from each status of the table, with the effects it has. *)
Lemma advance_from_offloaded (fuel : nat) (oid dest : string) (w : world) :
  advance (1 + fuel) (mkOrder oid dest (Some "Offloaded")) w =
  Ok (mkOrder oid dest (Some "Offloaded")) w.
Proof. now apply advance_done. Qed.

Lemma advance_from_waiting (fuel : nat) (oid dest : string) (w : world) :
  let o := mkOrder oid dest (Some "Waiting to Offload") in
  advance (2 + fuel) o w =
  Ok (mkOrder oid dest (Some "Offloaded"))
     (mkWorld (queue w) (trace w ++ update_events o (Some "Offloaded"))).
Proof.
  intros o. change (2 + fuel) with (S (1 + fuel)).
  rewrite (@advance_step _ o (Some "Offloaded")) by reflexivity.
  apply advance_from_offloaded.
Qed.

Lemma advance_from_in_transit (fuel : nat) (oid dest : string) (w : world) :
  let o := mkOrder oid dest (Some "In-Transit") in
  let o1 := mkOrder oid dest (Some "Waiting to Offload") in
  advance (3 + fuel) o w =
  Ok (mkOrder oid dest (Some "Offloaded"))
     (mkWorld (queue w)
        (trace w ++ update_events o (Some "Waiting to Offload")
                 ++ update_events o1 (Some "Offloaded"))).
Proof.
  intros o o1. change (3 + fuel) with (S (2 + fuel)).
  rewrite (@advance_step _ o (Some "Waiting to Offload")) by reflexivity.
  change (set_status o (Some "Waiting to Offload")) with o1.
  unfold o1. rewrite advance_from_waiting. cbn [queue trace].
  now rewrite <- app_assoc.
Qed.

Lemma advance_from_not_shipped (fuel : nat) (oid dest : string) (w : world) :
  let o := mkOrder oid dest (Some "Not Shipped") in
  let o1 := mkOrder oid dest (Some "In-Transit") in
  let o2 := mkOrder oid dest (Some "Waiting to Offload") in
  advance (4 + fuel) o w =
  Ok (mkOrder oid dest (Some "Offloaded"))
     (mkWorld (queue w)
        (trace w ++ update_events o (Some "In-Transit")
                 ++ update_events o1 (Some "Waiting to Offload")
                 ++ update_events o2 (Some "Offloaded"))).
Proof.
  intros o o1 o2. change (4 + fuel) with (S (3 + fuel)).
  rewrite (@advance_step _ o (Some "In-Transit")) by reflexivity.
  change (set_status o (Some "In-Transit")) with o1.
  unfold o1. rewrite advance_from_in_transit. cbn [queue trace].
  now rewrite <- app_assoc.
Qed.

(** ** Claims on [next_status] *)

(** C2, as stated, fails: on the string [Lost], which is none of the four
    statuses, the exception that [next_status] raises is not of a class
    named [UnknownStatusError], whatever its message. *)
Lemma unknown_status_raises_no_UnknownStatusError :
  ~ In "Lost" STATUS_ORDER /\
  forall msg : string,
    next_status (Some "Lost") <> Raise (mkExn "UnknownStatusError" msg).
Proof.
  split.
  - unfold STATUS_ORDER; simpl. intuition discriminate.
  - intros msg H. vm_compute in H. discriminate H.
Qed.

(** C2, amended. For every string that is none of the four statuses,
    [next_status] raises the built-in [ValueError] with the message
    [Unknown status: '<the string>'], and the advance loop of the processor
    run on an order with that status ends with that exception, having done
    nothing else. *)
Theorem unknown_status_raises_ValueError (s : string) :
  ~ In s STATUS_ORDER ->
  next_status (Some s) = Raise (ValueError ("Unknown status: '" ++ s ++ "'")) /\
  forall (fuel : nat) (oid dest : string) (w : world),
    advance (S fuel) (mkOrder oid dest (Some s)) w =
    Raised (ValueError ("Unknown status: '" ++ s ++ "'")) w.
Proof.
  intros Hs.
  assert (Hnext : next_status (Some s)
                  = Raise (ValueError ("Unknown status: '" ++ s ++ "'"))).
  { unfold next_status. now rewrite (dict_find_unknown Hs). }
  split; [exact Hnext|].
  intros fuel oid dest w. apply advance_raise; [|exact Hnext].
  unfold not_offloaded, key_eqb; cbn [status].
  destruct (String.eqb_spec "Offloaded" s) as [<-|]; [|reflexivity].
  exfalso. apply Hs. unfold STATUS_ORDER; simpl. tauto.
Qed.

Lemma unknown_status_raises_ValueError_witness :
  ~ In "Lost" STATUS_ORDER /\
  next_status (Some "Lost") = Raise (ValueError "Unknown status: 'Lost'").
Proof.
  assert (H : ~ In "Lost" STATUS_ORDER).
  { unfold STATUS_ORDER; simpl. intuition discriminate. }
  split; [exact H | exact (proj1 (unknown_status_raises_ValueError H))].
Defined.

(** C4. On the terminal status [Offloaded], [next_status] returns [None]:
    it raises nothing and returns no status. *)
Theorem next_status_terminal :
  next_status (Some "Offloaded") = Return None /\
  (forall e : exn, next_status (Some "Offloaded") <> Raise e) /\
  (forall s : string, next_status (Some "Offloaded") <> Return (Some s)).
Proof.
  repeat split; intros x H; vm_compute in H; discriminate H.
Qed.

(** C5. For every status of the enumeration other than [Offloaded],
    [next_status] returns the status that comes right after it in
    [STATUS_ORDER]: one position forward, inside the enumeration. *)
Theorem next_status_one_step_forward (s : string) (i : nat) :
  index_of s STATUS_ORDER = Some i ->
  s <> "Offloaded" ->
  exists s' : string,
    next_status (Some s) = Return (Some s') /\
    index_of s' STATUS_ORDER = Some (S i) /\
    In s' STATUS_ORDER.
Proof.
  intros Hi Hs.
  destruct (index_of_STATUS_ORDER s Hi)
    as [[-> ->]|[[-> ->]|[[-> ->]|[-> ->]]]].
  - exists "In-Transit". repeat split. unfold STATUS_ORDER; simpl; tauto.
  - exists "Waiting to Offload". repeat split.
    unfold STATUS_ORDER; simpl; tauto.
  - exists "Offloaded". repeat split. unfold STATUS_ORDER; simpl; tauto.
  - contradiction.
Qed.

Lemma next_status_one_step_forward_witness :
  exists s' : string,
    next_status (Some "In-Transit") = Return (Some s') /\
    index_of s' STATUS_ORDER = Some 2 /\
    In s' STATUS_ORDER.
Proof.
  apply (@next_status_one_step_forward "In-Transit" 1);
    [reflexivity | discriminate].
Defined.

(** ** Claims on the thread bodies *)

(** C3. An order that enters the advance loop of the processor with the
    status [Not Shipped] leaves it with the status [Offloaded], and the
    statuses it holds on the way, the initial one first and then every value
    written to its [status] key, are those of [STATUS_ORDER], in that order:
    each one once, each one what [next_status] returned on the one before. *)
Theorem advance_visits_every_status (o : order) (fuel : nat) (w : world) :
  status o = Some "Not Shipped" ->
  exists t : list event,
    advance (4 + fuel) o w =
      Ok (set_status o (Some "Offloaded")) (mkWorld (queue w) (trace w ++ t)) /\
    status o :: status_writes t =
      [Some "Not Shipped"; Some "In-Transit";
       Some "Waiting to Offload"; Some "Offloaded"] /\
    status o :: status_writes t = map Some STATUS_ORDER /\
    NoDup (status o :: status_writes t) /\
    follows_table (status o :: status_writes t).
Proof.
  destruct o as [oid dest st]; cbn [status]; intros ->.
  eexists. split; [apply advance_from_not_shipped|].
  cbn [status_writes update_events app].
  repeat split.
  repeat constructor; cbn [In]; intuition discriminate.
Qed.

Lemma advance_visits_every_status_witness :
  exists t : list event,
    advance 4 (mkOrder "68862131" "Cairo" (Some "Not Shipped"))
            (mkWorld __init__ []) =
      Ok (mkOrder "68862131" "Cairo" (Some "Offloaded"))
         (mkWorld __init__ ([] ++ t)) /\
    Some "Not Shipped" :: status_writes t =
      [Some "Not Shipped"; Some "In-Transit";
       Some "Waiting to Offload"; Some "Offloaded"] /\
    Some "Not Shipped" :: status_writes t = map Some STATUS_ORDER /\
    NoDup (Some "Not Shipped" :: status_writes t) /\
    follows_table (Some "Not Shipped" :: status_writes t).
Proof.
  exact (@advance_visits_every_status
           (mkOrder "68862131" "Cairo" (Some "Not Shipped")) 0
           (mkWorld __init__ []) eq_refl).
Defined.

(** C6. From each of the four statuses, replacing the status by the result
    of [next_status] reaches [Offloaded] in at most three steps; and the
    advance loop of the processor, run on an order holding that status, ends
    (it neither runs on nor raises) with the order at [Offloaded], after at
    most three writes to its status. *)
Theorem advance_terminates (s : string) :
  In s STATUS_ORDER ->
  (exists n : nat,
      n <= 3 /\ iterate_next n (Some s) = Return (Some "Offloaded")) /\
  forall (o : order) (fuel : nat) (w : world),
    status o = Some s ->
    exists t : list event,
      advance (4 + fuel) o w =
        Ok (set_status o (Some "Offloaded"))
           (mkWorld (queue w) (trace w ++ t)) /\
      length (status_writes t) <= 3.
Proof.
  intros Hs.
  destruct (In_STATUS_ORDER Hs) as [ -> | [ -> | [ -> | -> ] ] ].
  - split; [exists 3; split; [lia|reflexivity]|].
    intros [oid dest st] fuel w; cbn [status]; intros ->.
    eexists; split; [apply advance_from_not_shipped|].
    cbn [status_writes update_events app length]. lia.
  - split; [exists 2; split; [lia|reflexivity]|].
    intros [oid dest st] fuel w; cbn [status]; intros ->.
    change (4 + fuel) with (3 + S fuel).
    eexists; split; [apply advance_from_in_transit|].
    cbn [status_writes update_events app length]. lia.
  - split; [exists 1; split; [lia|reflexivity]|].
    intros [oid dest st] fuel w; cbn [status]; intros ->.
    change (4 + fuel) with (2 + S (S fuel)).
    eexists; split; [apply advance_from_waiting|].
    cbn [status_writes update_events app length]. lia.
  - split; [exists 0; split; [lia|reflexivity]|].
    intros [oid dest st] fuel w; cbn [status]; intros ->.
    change (4 + fuel) with (1 + S (S (S fuel))).
    exists []. rewrite app_nil_r. split; [|cbn; lia].
    rewrite advance_from_offloaded. now destruct w.
Qed.

Lemma advance_terminates_witness :
  In "In-Transit" STATUS_ORDER /\
  exists n : nat,
    n <= 3 /\ iterate_next n (Some "In-Transit") = Return (Some "Offloaded").
Proof.
  assert (H : In "In-Transit" STATUS_ORDER).
  { unfold STATUS_ORDER; simpl. tauto. }
  split; [exact H | exact (proj1 (@advance_terminates "In-Transit" H))].
Defined.

(** C9. With an empty order source, and so [total_orders = 0]: the
    generator returns after its banner and its closing line, without a call
    of [enqueue] and without a pacing sleep; the processor, after its fixed
    head-start sleep and its banner, leaves its polling loop at the first
    test, without a call on the queue, with [processed] equal to 0, which is
    [total_orders]. *)
Theorem empty_source_run (fuel : nat) (w : world) :
  let total_orders := Z.of_nat (length (@nil order_record)) in
  exists tg tp : list event,
    generate_orders [] total_orders w
      = Ok tt (mkWorld (queue w) (trace w ++ tg)) /\
    tg = [ Print SEPARATOR; Print " ORDER GENERATOR STARTED"; Print SEPARATOR;
           Print (nl ++ "[GENERATOR] All 0 orders dispatched." ++ nl) ] /\
    enqueue_calls tg = [] /\
    process_loop (S fuel) total_orders 0 w = Ok 0%Z w /\
    process_orders (S fuel) total_orders w
      = Ok total_orders (mkWorld (queue w) (trace w ++ tp)) /\
    tp = [ Sleep 2000;
           Print SEPARATOR; Print " ORDER PROCESSOR STARTED"; Print SEPARATOR;
           Print (nl ++ "✅ All 0 orders have been delivered and offloaded.") ] /\
    dequeue_calls tp = 0.
Proof.
  cbn zeta. cbn [length Z.of_nat].
  do 2 eexists.
  split; [|split; [reflexivity|]].
  - unfold generate_orders, bind, print, emit; cbn [generate_loop ret queue trace].
    rewrite <- !app_assoc. reflexivity.
  - split; [reflexivity|]. split; [reflexivity|].
    split; [|split; [reflexivity|reflexivity]].
    unfold process_orders, bind, print, sleep, emit, ret;
      cbn [process_loop Z.ltb Z.compare queue trace ret].
    rewrite <- !app_assoc. reflexivity.
Qed.

(** The loop of the generator enqueues one order per record of its source,
    in source order, each with the initial status. *)
Lemma generate_loop_enqueues (source : list order_record) (w : world) :
  exists t : list event,
    generate_loop source w =
      Ok tt (mkWorld
               (enqueue_all (map (fun r => Some (with_initial_status r)) source)
                            (queue w))
               (trace w ++ t)) /\
    enqueue_calls t = map (fun r => Some (with_initial_status r)) source.
Proof.
  revert w; induction source as [|r source IH]; intros w.
  - exists []. rewrite app_nil_r. split; [now destruct w | reflexivity].
  - cbn [generate_loop map enqueue_all].
    unfold bind at 1, print_status, print, emit. cbn beta iota.
    unfold bind at 1, q_enqueue. cbn beta iota.
    unfold bind at 1, sleep, emit. cbn [queue trace].
    destruct (IH (mkWorld
                    (enqueue (queue w) (Some (with_initial_status r)))
                    (((trace w
                       ++ [Print (status_line (with_initial_status r) "DISPATCH")])
                      ++ [QEnqueue (Some (with_initial_status r))])
                     ++ [Sleep 1000])))
      as (t & Hrun & Hcalls).
    rewrite Hrun. cbn [queue trace].
    exists ([Print (status_line (with_initial_status r) "DISPATCH");
             QEnqueue (Some (with_initial_status r));
             Sleep 1000] ++ t)%list.
    split.
    + now rewrite <- !app_assoc.
    + cbn [app enqueue_calls]. now rewrite Hcalls.
Qed.

(** The generator does not read [total_orders] to decide what to enqueue:
    whatever count it is given, the queue gets the orders of the source
    behind the items it held, in source order. *)
Remark generator_enqueues_its_source
  (source : list order_record) (total_orders : Z) (w : world) :
  exists w' : world,
    generate_orders source total_orders w = Ok tt w' /\
    repr_items (queue w') =
      (repr_items (queue w)
         ++ map (fun r => Some (with_initial_status r)) source)%list.
Proof.
  unfold generate_orders.
  unfold bind at 1, print, emit. cbn beta iota.
  unfold bind at 1, emit. cbn beta iota.
  unfold bind at 1, emit. cbn [queue trace].
  unfold bind at 1.
  match goal with
  | |- context [generate_loop source ?w0] =>
      destruct (generate_loop_enqueues source w0) as (t & Hrun & _);
      rewrite Hrun
  end.
  cbn [queue trace]. eexists. split; [reflexivity|].
  cbn [queue]. apply QueueProperties.repr_items_enqueue_all.
Qed.

(** The program's own data, generator first and processor after it: the
    five orders are processed in the order of [ORDERS], each through the
    three transitions, and the queue ends empty. *)
Example pipeline_run_on_ORDERS :
  exists w' : world,
    (generate_orders ORDERS 5 ;; process_orders 30 5) (mkWorld __init__ [])
      = Ok 5%Z w' /\
    queue w' = __init__ /\
    status_writes (trace w') =
      concat (repeat [Some "In-Transit"; Some "Waiting to Offload";
                      Some "Offloaded"] 5) /\
    dequeue_calls (trace w') = 5.
Proof.
  eexists. split; [vm_compute; reflexivity|].
  vm_compute. repeat split.
Qed.

End TrackerProperties.

(* ====================================================================== *)
(** * Further properties of the queue *)
(* ====================================================================== *)

Module QueueExtras.

Import CustomQueue QueueProperties.

Section Calls.

Variable A : Type.

Lemma size_repr_items (q : Queue A) :
  size q = Z.of_nat (length (repr_items q)).
Proof. unfold size, repr_items. now rewrite length_rev. Qed.

(** X1. [dequeue] on a queue that is not empty returns the oldest stored
    value and removes exactly it: the other values stay, in order, and
    [size()] goes down by one. *)
Theorem dequeue_takes_the_oldest (q : Queue A) :
  is_empty q = false ->
  repr_items q = fst (dequeue q) :: repr_items (snd (dequeue q)) /\
  size (snd (dequeue q)) = (size q - 1)%Z.
Proof.
  intros He.
  destruct (repr_items q) as [|x rest] eqn:Hq.
  - apply is_empty_repr_items in Hq. unfold is_empty in He. congruence.
  - destruct (dequeue_head q Hq) as (_ & Hv & Hrest).
    split; [now rewrite Hv, Hrest|].
    rewrite !size_repr_items, Hrest, Hq. cbn [length]. lia.
Qed.

(** X2. [dequeue] right after [enqueue(v)]: on an empty queue it gives [v]
    back and the queue is as before; on a queue that is not empty it returns
    what it would have returned without the [enqueue], and [v] is then the
    youngest value of the queue. *)
Theorem dequeue_after_enqueue (q : Queue A) (v : item A) :
  dequeue (enqueue q v) =
  if is_empty q then (v, q)
  else (fst (dequeue q), enqueue (snd (dequeue q)) v).
Proof.
  destruct (repr_items q) as [|x rest] eqn:Hq.
  - apply is_empty_repr_items in Hq as He. unfold is_empty. rewrite He.
    assert (H : repr_items (enqueue q v) = v :: repr_items q).
    { now rewrite repr_items_enqueue, Hq. }
    destruct (dequeue_head _ H) as (_ & Hv & Hrest).
    apply repr_items_inj in Hrest.
    destruct (dequeue (enqueue q v)) as [r q']; simpl in *. congruence.
  - destruct (dequeue_head q Hq) as (He & Hv & Hrest).
    unfold is_empty. rewrite He.
    assert (H : repr_items (enqueue q v) = x :: (rest ++ [v])).
    { now rewrite repr_items_enqueue, Hq. }
    destruct (dequeue_head _ H) as (_ & Hv' & Hrest').
    assert (Hq' : snd (dequeue (enqueue q v)) = enqueue (snd (dequeue q)) v).
    { apply repr_items_inj. now rewrite Hrest', repr_items_enqueue, Hrest. }
    destruct (dequeue (enqueue q v)) as [r q']; simpl in *. congruence.
Qed.

(** X3. [n] calls of [dequeue] in a row, on any queue: they return the [n]
    oldest values, oldest first, and once the queue is exhausted one [None]
    per further call; the values not returned stay in the queue, in order.
    No call fails. *)
Theorem dequeue_n_drains (n : nat) (q : Queue A) :
  fst (dequeue_n n q) =
    firstn n (repr_items q) ++ repeat None (n - length (repr_items q)) /\
  repr_items (snd (dequeue_n n q)) = skipn n (repr_items q).
Proof.
  revert q; induction n as [|n IH]; intros q.
  - simpl. split; reflexivity.
  - cbn [dequeue_n].
    destruct (repr_items q) as [|x rest] eqn:Hq.
    + rewrite (dequeue_empty q Hq).
      specialize (IH q). rewrite Hq in IH.
      destruct (dequeue_n n q) as [vs q2]; simpl in *.
      destruct IH as [IH1 IH2]. split.
      * rewrite IH1. rewrite firstn_nil, Nat.sub_0_r. reflexivity.
      * rewrite IH2. now rewrite skipn_nil.
    + destruct (dequeue_head q Hq) as (_ & Hv & Hrest).
      destruct (dequeue q) as [v q1]; simpl in Hv, Hrest.
      specialize (IH q1). rewrite Hrest in IH.
      destruct (dequeue_n n q1) as [vs q2]; simpl in *.
      destruct IH as [IH1 IH2]. split.
      * now rewrite IH1, Hv.
      * exact IH2.
Qed.

(** X4. [__repr__] shows the stored values in the order in which [dequeue]
    will hand them out: the text is that of the list of the results of
    [size()] calls of [dequeue]. *)
Theorem repr_is_dequeue_order (repr_obj : A -> string) (q : Queue A) :
  __repr__ repr_obj q =
  ("Queue(" ++ "["
   ++ String.concat ", "
        (map (repr_item repr_obj) (fst (dequeue_n (Z.to_nat (size q)) q)))
   ++ "]" ++ ")")%string.
Proof.
  rewrite size_repr_items, Nat2Z.id.
  rewrite (dequeue_n_all q eq_refl). cbn [fst].
  reflexivity.
Qed.

End Calls.

Lemma dequeue_takes_the_oldest_witness :
  let q := enqueue (enqueue (@__init__ nat) (Some 1)) (Some 2) in
  repr_items q = fst (dequeue q) :: repr_items (snd (dequeue q)) /\
  size (snd (dequeue q)) = (size q - 1)%Z.
Proof.
  exact (@dequeue_takes_the_oldest nat
           (enqueue (enqueue __init__ (Some 1)) (Some 2)) eq_refl).
Defined.

End QueueExtras.

(* ====================================================================== *)
(** * Further properties of the state machine and of the thread bodies *)
(* ====================================================================== *)

Module TrackerExtras.

Import CustomQueue LogisticsTracker QueueProperties TrackerProperties.
Local Open Scope string_scope.

(** ** Reading a trace made of two parts *)

Lemma status_writes_app (t1 t2 : list event) :
  status_writes (t1 ++ t2) = (status_writes t1 ++ status_writes t2)%list.
Proof.
  induction t1 as [|e t1 IH]; [reflexivity|].
  destruct e; cbn [app status_writes]; now rewrite IH.
Qed.

Lemma dequeue_answers_app (t1 t2 : list event) :
  dequeue_answers (t1 ++ t2) = (dequeue_answers t1 ++ dequeue_answers t2)%list.
Proof.
  induction t1 as [|e t1 IH]; [reflexivity|].
  destruct e; cbn [app dequeue_answers]; now rewrite IH.
Qed.

Lemma enqueue_calls_app (t1 t2 : list event) :
  enqueue_calls (t1 ++ t2) = (enqueue_calls t1 ++ enqueue_calls t2)%list.
Proof.
  induction t1 as [|e t1 IH]; [reflexivity|].
  destruct e; cbn [app enqueue_calls]; now rewrite IH.
Qed.

(** ** Known and unknown status values *)

Lemma known_status_cases (v : status_value) :
  known_status v ->
  v = Some "Not Shipped" \/ v = Some "In-Transit" \/
  v = Some "Waiting to Offload" \/ v = Some "Offloaded".
Proof.
  intros (s & -> & Hs).
  destruct (In_STATUS_ORDER Hs) as [ -> | [ -> | [ -> | -> ] ] ]; auto.
Qed.

Lemma known_status_dec (v : status_value) : known_status v \/ ~ known_status v.
Proof.
  destruct v as [s|].
  - destruct (in_dec string_dec s STATUS_ORDER) as [Hs|Hs].
    + left. now exists s.
    + right. intros (s' & H & Hs'). inversion H; subst. contradiction.
  - right. intros (s & H & _). discriminate H.
Qed.

Lemma next_status_unknown (v : status_value) :
  ~ known_status v ->
  next_status v = Raise (ValueError ("Unknown status: '" ++ py_str v ++ "'")).
Proof.
  intros Hv. unfold next_status.
  destruct v as [s|]; [|reflexivity].
  rewrite dict_find_unknown; [reflexivity|].
  intros Hs. apply Hv. now exists s.
Qed.

(** A known status other than the terminal one has a known successor. *)
Lemma known_step (o : order) :
  known_status (status o) ->
  not_offloaded o = true ->
  exists s' : string,
    next_status (status o) = Return (Some s') /\ known_status (Some s').
Proof.
  intros Hk Hne. unfold not_offloaded in Hne.
  destruct (known_status_cases Hk) as [H|[H|[H|H]]]; rewrite H in *.
  - exists "In-Transit". split; [reflexivity|].
    exists "In-Transit". split; [reflexivity|]. unfold STATUS_ORDER; simpl; tauto.
  - exists "Waiting to Offload". split; [reflexivity|].
    exists "Waiting to Offload". split; [reflexivity|].
    unfold STATUS_ORDER; simpl; tauto.
  - exists "Offloaded". split; [reflexivity|].
    exists "Offloaded". split; [reflexivity|]. unfold STATUS_ORDER; simpl; tauto.
  - discriminate Hne.
Qed.

Lemma offloaded_status (o : order) :
  not_offloaded o = false -> o = set_status o (Some "Offloaded").
Proof.
  destruct o as [oid dest [s|]]; unfold not_offloaded, key_eqb, set_status;
    cbn [status order_id destination]; intros H; [|discriminate H].
  apply negb_false_iff, String.eqb_eq in H. now subst.
Qed.

Lemma unknown_is_not_offloaded (o : order) :
  ~ known_status (status o) -> not_offloaded o = true.
Proof.
  intros Hk. destruct (not_offloaded o) eqn:Hne; [reflexivity|].
  exfalso. apply Hk. apply offloaded_status in Hne. rewrite Hne.
  exists "Offloaded". split; [reflexivity|]. unfold STATUS_ORDER; simpl; tauto.
Qed.

(** ** The advance loop on a known status *)

(** Whatever the budget, the loop on a known status does not raise: it is
    still running, or it has left the order at [Offloaded] without touching
    the queue. *)
Lemma advance_known (fuel : nat) (o : order) (w : world) :
  known_status (status o) ->
  advance fuel o w = OutOfFuel \/
  exists t : list event,
    advance fuel o w =
    Ok (set_status o (Some "Offloaded")) (mkWorld (queue w) (trace w ++ t)).
Proof.
  revert o w; induction fuel as [|fuel IH]; intros o w Hk.
  - left. reflexivity.
  - destruct (not_offloaded o) eqn:Hne.
    + destruct (known_step o Hk Hne) as (s' & Hnext & Hk').
      rewrite (advance_step fuel o w Hne Hnext).
      destruct (IH (set_status o (Some s'))
                   (mkWorld (queue w) (trace w ++ update_events o (Some s')))
                   Hk') as [Hout|(t & Hok)].
      * left. exact Hout.
      * right. exists (update_events o (Some s') ++ t)%list.
        rewrite Hok. cbn [queue trace]. rewrite <- app_assoc.
        now destruct o.
    + right. exists []. rewrite (advance_done fuel o w Hne), app_nil_r.
      rewrite <- (offloaded_status o Hne). now destruct w.
Qed.

(** With four loop tests or more, the loop on a known status returns, and
    the statuses it writes are those that the table prescribes. *)
Lemma advance_known_ok (o : order) (fuel : nat) (w : world) :
  known_status (status o) ->
  exists t : list event,
    advance (4 + fuel) o w =
      Ok (set_status o (Some "Offloaded")) (mkWorld (queue w) (trace w ++ t)) /\
    status_writes t = path_from 3 (status o) /\
    dequeue_answers t = [] /\
    enqueue_calls t = [].
Proof.
  intros Hk. destruct o as [oid dest st]; cbn [status] in *.
  destruct (known_status_cases Hk) as [H|[H|[H|H]]]; subst st.
  - eexists. split; [apply advance_from_not_shipped|]. repeat split.
  - change (4 + fuel) with (3 + S fuel).
    eexists. split; [apply advance_from_in_transit|]. repeat split.
  - change (4 + fuel) with (2 + S (S fuel)).
    eexists. split; [apply advance_from_waiting|]. repeat split.
  - change (4 + fuel) with (1 + S (S (S fuel))).
    exists []. rewrite app_nil_r. split; [|repeat split].
    rewrite advance_from_offloaded. now destruct w.
Qed.

(** ** One test of the polling loop *)

Lemma process_loop_exit (fuel : nat) (total_orders processed : Z) (w : world) :
  (total_orders <= processed)%Z ->
  process_loop (S fuel) total_orders processed w = Ok processed w.
Proof.
  intros H. cbn [process_loop].
  now replace (processed <? total_orders)%Z with false by (symmetry; lia).
Qed.

Lemma process_loop_poll (fuel : nat) (total_orders processed : Z) (w : world) :
  (processed < total_orders)%Z ->
  repr_items (queue w) = [] ->
  process_loop (S fuel) total_orders processed w =
  process_loop fuel total_orders processed
    (mkWorld (queue w) (trace w ++ poll_events)).
Proof.
  intros Hlt Hq. apply is_empty_repr_items in Hq.
  cbn [process_loop].
  replace (processed <? total_orders)%Z with true by (symmetry; lia).
  unfold bind at 1, q_is_empty, is_empty. rewrite Hq. cbn [negb].
  unfold bind at 1, sleep, emit. cbn [queue trace].
  now rewrite <- app_assoc.
Qed.

Lemma process_loop_pick
  (fuel : nat) (total_orders processed : Z) (w : world)
  (o : order) (rest : list (option order)) :
  (processed < total_orders)%Z ->
  repr_items (queue w) = Some o :: rest ->
  exists q1 : Queue order,
    repr_items q1 = rest /\
    process_loop (S fuel) total_orders processed w =
    (o' <- advance fuel o ;;
     emit (Print ("[DONE    ] ORD-" ++ order_id o'
                  ++ " successfully offloaded at " ++ destination o' ++ ".")) ;;
     emit (Print SEPARATOR) ;;
     process_loop fuel total_orders (processed + 1)%Z)
      (mkWorld q1 (trace w ++ pick_events o)).
Proof.
  intros Hlt Hq. destruct (dequeue_head (queue w) Hq) as (He & Hv & Hrest).
  exists (snd (dequeue (queue w))). split; [exact Hrest|].
  cbn [process_loop].
  replace (processed <? total_orders)%Z with true by (symmetry; lia).
  unfold bind at 1, q_is_empty, is_empty. rewrite He. cbn [negb].
  unfold bind at 1, q_dequeue. cbn [queue trace].
  destruct (dequeue (queue w)) as [v q1]. cbn [fst snd] in *. subst v.
  unfold bind at 1, print, emit. cbn [queue trace].
  unfold pick_events. now rewrite <- !app_assoc.
Qed.

Lemma process_loop_none
  (fuel : nat) (total_orders processed : Z) (w : world)
  (rest : list (option order)) :
  (processed < total_orders)%Z ->
  repr_items (queue w) = None :: rest ->
  exists q1 : Queue order,
    repr_items q1 = rest /\
    process_loop (S fuel) total_orders processed w =
    Raised (TypeError "'NoneType' object is not subscriptable")
           (mkWorld q1 (trace w ++ [QIsEmpty false; QDequeue None])).
Proof.
  intros Hlt Hq. destruct (dequeue_head (queue w) Hq) as (He & Hv & Hrest).
  exists (snd (dequeue (queue w))). split; [exact Hrest|].
  cbn [process_loop].
  replace (processed <? total_orders)%Z with true by (symmetry; lia).
  unfold bind at 1, q_is_empty, is_empty. rewrite He. cbn [negb].
  unfold bind at 1, q_dequeue. cbn [queue trace].
  destruct (dequeue (queue w)) as [v q1]. cbn [fst snd] in *. subst v.
  unfold raise. now rewrite <- !app_assoc.
Qed.

(** [process_orders] around its loop. *)
Lemma process_orders_unfold (fuel : nat) (total_orders : Z) (w : world) :
  process_orders fuel total_orders w =
  match process_loop fuel total_orders 0
          (mkWorld (queue w) (trace w ++ processor_banner)) with
  | Ok processed w' =>
      Ok processed
         (mkWorld (queue w') (trace w' ++ [processor_closing total_orders]))
  | Raised e w' => Raised e w'
  | OutOfFuel => OutOfFuel
  end.
Proof.
  unfold process_orders.
  unfold bind at 1, sleep, emit.
  unfold bind at 1, print, emit.
  unfold bind at 1, emit.
  unfold bind at 1, emit. cbn [queue trace].
  unfold bind at 1.
  unfold processor_banner. rewrite <- !app_assoc. cbn [app].
  destruct (process_loop _ _ _ _); reflexivity.
Qed.

(** ** The loops as a whole *)

(** The loop of the generator, with its effects. *)
Lemma generate_loop_effects (source : list order_record) (w : world) :
  generate_loop source w =
  Ok tt (mkWorld
           (enqueue_all (map (fun r => Some (with_initial_status r)) source)
                        (queue w))
           (trace w ++ flat_map dispatch_events source)).
Proof.
  revert w; induction source as [|r source IH]; intros w.
  - cbn [generate_loop map enqueue_all flat_map]. rewrite app_nil_r.
    now destruct w.
  - cbn [generate_loop map enqueue_all flat_map].
    unfold bind at 1, print_status, print, emit. cbn beta iota.
    unfold bind at 1, q_enqueue. cbn beta iota.
    unfold bind at 1, sleep, emit. cbn [queue trace].
    rewrite IH. cbn [queue trace].
    unfold dispatch_events. now rewrite <- !app_assoc.
Qed.

Lemma generate_orders_run
  (source : list order_record) (total_orders : Z) (w : world) :
  generate_orders source total_orders w =
  Ok tt (mkWorld
           (enqueue_all (map (fun r => Some (with_initial_status r)) source)
                        (queue w))
           (trace w ++ generator_banner ++ flat_map dispatch_events source
                    ++ [generator_closing total_orders])).
Proof.
  unfold generate_orders.
  unfold bind at 1, print, emit.
  unfold bind at 1, emit.
  unfold bind at 1, emit. cbn [queue trace].
  unfold bind at 1. rewrite generate_loop_effects. cbn [queue trace].
  unfold generator_banner, generator_closing.
  rewrite <- !app_assoc. reflexivity.
Qed.

(** The polling loop with too few orders in the queue: it is still running
    when any budget is spent. *)
Lemma process_loop_starves (fuel : nat) :
  forall (orders : list order) (total_orders processed : Z) (w : world),
    Forall (fun o => known_status (status o)) orders ->
    repr_items (queue w) = map Some orders ->
    (processed + Z.of_nat (length orders) < total_orders)%Z ->
    process_loop fuel total_orders processed w = OutOfFuel.
Proof.
  induction fuel as [|fuel IH]; intros orders total_orders processed w Hk Hq Hlt.
  - reflexivity.
  - destruct orders as [|o orders].
    + rewrite process_loop_poll by (cbn [length] in Hlt; lia || exact Hq).
      apply (IH []); [constructor | exact Hq | exact Hlt].
    + cbn [map] in Hq.
      destruct (@process_loop_pick fuel total_orders processed w o
                  (map Some orders)) as (q1 & Hq1 & Hrun);
        [cbn [length] in Hlt; lia | exact Hq |].
      rewrite Hrun. unfold bind at 1.
      apply Forall_cons_iff in Hk as [Hko Hk].
      destruct (advance_known fuel o (mkWorld q1 (trace w ++ pick_events o)) Hko)
        as [Hout|(t & Hok)].
      * now rewrite Hout.
      * rewrite Hok. unfold bind at 1, emit. unfold bind at 1, emit.
        cbn [queue trace].
        apply (IH orders); [exact Hk | exact Hq1 |].
        cbn [length] in Hlt. lia.
Qed.

(** The polling loop with the orders it needs at the head of the queue. *)
Lemma process_loop_serves (orders : list order) :
  forall (rest : list (option order)) (total_orders processed : Z)
         (k : nat) (w : world),
    Forall (fun o => known_status (status o)) orders ->
    repr_items (queue w) = (map Some orders ++ rest)%list ->
    total_orders = (processed + Z.of_nat (length orders))%Z ->
    exists (q' : Queue order) (t : list event),
      process_loop (length orders + 5 + k) total_orders processed w =
        Ok total_orders (mkWorld q' (trace w ++ t)) /\
      repr_items q' = rest /\
      dequeue_answers t = map Some orders /\
      enqueue_calls t = [] /\
      status_writes t = flat_map (fun o => path_from 3 (status o)) orders.
Proof.
  induction orders as [|o orders IH];
    intros rest total_orders processed k w Hk Hq Htotal.
  - exists (queue w), []. cbn [length Nat.add].
    rewrite process_loop_exit by (cbn [length] in Htotal; lia).
    rewrite app_nil_r. cbn [length] in Htotal.
    replace total_orders with processed by lia.
    repeat split; [now destruct w | exact Hq].
  - cbn [map app] in Hq.
    change (length (o :: orders) + 5 + k)
      with (S (length orders + 5 + k)).
    destruct (@process_loop_pick (length orders + 5 + k) total_orders
                processed w o (map Some orders ++ rest)%list)
      as (q1 & Hq1 & Hrun); [cbn [length] in Htotal; lia | exact Hq |].
    rewrite Hrun. unfold bind at 1.
    apply Forall_cons_iff in Hk as [Hko Hk].
    destruct (advance_known_ok o (length orders + 1 + k)
                (mkWorld q1 (trace w ++ pick_events o)) Hko)
      as (ta & Hok & Hwrites & Hdeq & Henq).
    replace (4 + (length orders + 1 + k)) with (length orders + 5 + k) in Hok
      by lia.
    rewrite Hok. unfold bind at 1, emit. unfold bind at 1, emit.
    cbn [queue trace].
    match goal with
    | |- context [process_loop _ _ _ ?w1] =>
        destruct (IH rest total_orders (processed + 1)%Z k w1 Hk Hq1)
          as (q' & t & Hloop & Hrest & Hdeq' & Henq' & Hwrites');
          [cbn [length] in Htotal; lia |]
    end.
    exists q',
      (pick_events o ++ ta
       ++ done_events (set_status o (Some "Offloaded")) ++ t)%list.
    split; [|split; [exact Hrest|]].
    + rewrite Hloop. cbn [queue trace]. unfold done_events.
      rewrite <- !app_assoc. reflexivity.
    + rewrite !dequeue_answers_app, !enqueue_calls_app, !status_writes_app.
      rewrite Hdeq, Henq, Hwrites, Hdeq', Henq', Hwrites'.
      repeat split.
Qed.

(** ** More on [next_status] *)

(** X5. [next_status] returns a value exactly on the four keys of the
    table, and on every other value, [None] included, it raises
    [ValueError] with a message that quotes [str] of the value. *)
Theorem next_status_accepts_exactly_the_keys (v : status_value) :
  ((exists r : status_value, next_status v = Return r) <-> known_status v) /\
  (~ known_status v ->
   next_status v = Raise (ValueError ("Unknown status: '" ++ py_str v ++ "'"))).
Proof.
  split; [|apply next_status_unknown].
  split.
  - intros (r & Hr).
    destruct (known_status_dec v) as [Hk|Hk]; [exact Hk|].
    rewrite (next_status_unknown Hk) in Hr. discriminate Hr.
  - intros Hk.
    destruct (known_status_cases Hk) as [H|[H|[H|H]]]; subst v;
      eexists; reflexivity.
Qed.

(** X6. [n] successive transitions from the status at position [i] of
    [STATUS_ORDER], when they give a status, give the one at position
    [i + n]: the status moves forward by one position per transition, never
    back and never in a circle. *)
Theorem iterate_next_moves_n_positions (s s' : string) (i n : nat) :
  index_of s STATUS_ORDER = Some i ->
  iterate_next n (Some s) = Return (Some s') ->
  index_of s' STATUS_ORDER = Some (i + n).
Proof.
  intros Hi Hn.
  destruct (index_of_STATUS_ORDER s Hi)
    as [[-> ->]|[[-> ->]|[[-> ->]|[-> ->]]]];
    destruct n as [|[|[|[|[|n]]]]];
    vm_compute in Hn; inversion Hn; subst; reflexivity.
Qed.

Lemma iterate_next_moves_n_positions_witness :
  index_of "Offloaded" STATUS_ORDER = Some (1 + 2).
Proof.
  exact (@iterate_next_moves_n_positions "In-Transit" "Offloaded" 1 2
           eq_refl eq_refl).
Defined.

(** ** More on the generator *)

(** X7. [generate_orders], on any source and whatever [total_orders] it is
    given: it returns normally; after its banner it dispatches the records
    in source order, each one printed, enqueued with the status
    [Not Shipped] and followed by a one-second sleep; it ends with its
    closing line.  The queue holds the new orders behind the values it held,
    and its [size()] has grown by the length of the source. *)
Theorem generate_orders_effects
  (source : list order_record) (total_orders : Z) (w : world) :
  let items := map (fun r => Some (with_initial_status r)) source in
  generate_orders source total_orders w =
    Ok tt (mkWorld (enqueue_all items (queue w))
             (trace w ++ generator_banner ++ flat_map dispatch_events source
                      ++ [generator_closing total_orders])) /\
  repr_items (enqueue_all items (queue w)) = (repr_items (queue w) ++ items)%list /\
  size (enqueue_all items (queue w))
  = (size (queue w) + Z.of_nat (length source))%Z.
Proof.
  intros items. split; [apply generate_orders_run|].
  split; [apply repr_items_enqueue_all|].
  rewrite !QueueExtras.size_repr_items, repr_items_enqueue_all, length_app.
  unfold items. rewrite length_map. lia.
Qed.

(** ** More on the processor *)

(** X8. [process_orders] with [total_orders] zero or negative, on any
    queue: after its head-start sleep and its banner it prints its closing
    line and returns, with [processed] at 0 and without any call on the
    queue, whatever the queue holds. *)
Theorem process_orders_nothing_to_do
  (fuel : nat) (total_orders : Z) (w : world) :
  (total_orders <= 0)%Z ->
  process_orders (S fuel) total_orders w =
  Ok 0%Z (mkWorld (queue w)
            (trace w ++ processor_banner ++ [processor_closing total_orders])).
Proof.
  intros H. rewrite process_orders_unfold, process_loop_exit by exact H.
  cbn [queue trace]. now rewrite <- app_assoc.
Qed.

Lemma process_orders_nothing_to_do_witness :
  process_orders 1 (-3) (mkWorld (enqueue __init__ None) []) =
  Ok 0%Z (mkWorld (enqueue __init__ None)
            ([] ++ processor_banner ++ [processor_closing (-3)])).
Proof.
  apply (@process_orders_nothing_to_do 0 (-3)
           (mkWorld (enqueue __init__ None) [])).
  lia.
Defined.

(** X9. [process_orders] run with nobody enqueuing, on a queue that holds
    fewer orders than [total_orders] (each with a known status): it neither
    returns nor raises; whatever the number of loop tests allowed, it is
    still in its loop. *)
Theorem process_orders_waits_forever
  (orders : list order) (total_orders : Z) (w : world) (fuel : nat) :
  Forall (fun o => known_status (status o)) orders ->
  repr_items (queue w) = map Some orders ->
  (Z.of_nat (length orders) < total_orders)%Z ->
  process_orders fuel total_orders w = OutOfFuel.
Proof.
  intros Hk Hq Hlt. rewrite process_orders_unfold.
  rewrite (@process_loop_starves fuel orders); [reflexivity | exact Hk | exact Hq |].
  lia.
Qed.

Lemma process_orders_waits_forever_witness :
  process_orders 1000 1 (mkWorld __init__ []) = OutOfFuel.
Proof.
  apply (@process_orders_waits_forever [] 1 (mkWorld __init__ []) 1000).
  - constructor.
  - reflexivity.
  - simpl. lia.
Defined.

(** X10. When the oldest value in the queue is [None] and at least one
    order is expected, [process_orders] raises [TypeError] at its first
    pick: the [None] has been taken out of the queue, nothing else has. *)
Theorem process_orders_on_stored_None
  (fuel : nat) (total_orders : Z) (w : world) (rest : list (option order)) :
  (0 < total_orders)%Z ->
  repr_items (queue w) = None :: rest ->
  exists q' : Queue order,
    process_orders (S fuel) total_orders w =
      Raised (TypeError "'NoneType' object is not subscriptable")
             (mkWorld q' (trace w ++ processor_banner
                                  ++ [QIsEmpty false; QDequeue None])) /\
    repr_items q' = rest.
Proof.
  intros Hlt Hq. rewrite process_orders_unfold.
  destruct (@process_loop_none fuel total_orders 0
              (mkWorld (queue w) (trace w ++ processor_banner)) rest Hlt Hq)
    as (q1 & Hq1 & Hrun).
  exists q1. rewrite Hrun. cbn [queue trace]. rewrite <- app_assoc.
  split; [reflexivity | exact Hq1].
Qed.

Lemma process_orders_on_stored_None_witness :
  exists q' : Queue order,
    process_orders 1 1 (mkWorld (enqueue __init__ None) []) =
      Raised (TypeError "'NoneType' object is not subscriptable")
             (mkWorld q' ([] ++ processor_banner
                             ++ [QIsEmpty false; QDequeue None])) /\
    repr_items q' = [].
Proof.
  apply (@process_orders_on_stored_None 0 1
           (mkWorld (enqueue __init__ None) []) []).
  - lia.
  - reflexivity.
Defined.

(** X11. When the oldest order in the queue has a status that is no key of
    the table and at least one order is expected, [process_orders] raises
    the [ValueError] of [next_status] right after picking the order up: the
    order has left the queue, its status has not been written, and
    [processed] has not been counted up. *)
Theorem process_orders_on_unknown_status
  (fuel : nat) (total_orders : Z) (w : world)
  (o : order) (rest : list (option order)) :
  (0 < total_orders)%Z ->
  repr_items (queue w) = Some o :: rest ->
  ~ known_status (status o) ->
  exists q' : Queue order,
    process_orders (S (S fuel)) total_orders w =
      Raised (ValueError ("Unknown status: '" ++ py_str (status o) ++ "'"))
             (mkWorld q' (trace w ++ processor_banner ++ pick_events o)) /\
    repr_items q' = rest.
Proof.
  intros Hlt Hq Hk. rewrite process_orders_unfold.
  destruct (@process_loop_pick (S fuel) total_orders 0
              (mkWorld (queue w) (trace w ++ processor_banner)) o rest Hlt Hq)
    as (q1 & Hq1 & Hrun).
  exists q1. rewrite Hrun. unfold bind at 1.
  rewrite (@advance_raise fuel o _ _ (unknown_is_not_offloaded o Hk)
             (next_status_unknown Hk)).
  cbn [queue trace]. rewrite <- app_assoc.
  split; [reflexivity | exact Hq1].
Qed.

Lemma process_orders_on_unknown_status_witness :
  exists q' : Queue order,
    process_orders 2 1
      (mkWorld (enqueue __init__ (Some (mkOrder "7" "Giza" (Some "Lost")))) [])
    = Raised (ValueError "Unknown status: 'Lost'")
        (mkWorld q' ([] ++ processor_banner
                        ++ pick_events (mkOrder "7" "Giza" (Some "Lost")))) /\
    repr_items q' = [].
Proof.
  apply (@process_orders_on_unknown_status 0 1
           (mkWorld (enqueue __init__ (Some (mkOrder "7" "Giza" (Some "Lost")))) [])
           (mkOrder "7" "Giza" (Some "Lost")) []).
  - lia.
  - reflexivity.
  - intros (s & Hs & Hin). inversion Hs; subst.
    unfold STATUS_ORDER in Hin; simpl in Hin. intuition discriminate.
Defined.



(** X13. The generator run to its end and the processor after it, on a
    fresh queue, for any source and [total_orders] the length of the source:
    the processor returns with [processed] equal to [total_orders]; the
    orders it dequeued are those the generator enqueued, in source order;
    each went through [In-Transit], [Waiting to Offload], [Offloaded]; the
    queue ends empty. *)
Theorem generator_then_processor
  (source : list order_record) (k : nat) (t0 : list event) :
  let n := Z.of_nat (length source) in
  let items := map (fun r => Some (with_initial_status r)) source in
  exists t : list event,
    (generate_orders source n ;; process_orders (length source + 5 + k) n)
      (mkWorld __init__ t0)
    = Ok n (mkWorld __init__ (t0 ++ t)) /\
    enqueue_calls t = items /\
    dequeue_answers t = items /\
    status_writes t =
      concat (repeat [Some "In-Transit"; Some "Waiting to Offload";
                      Some "Offloaded"] (length source)).
Proof.
  intros n items. unfold bind at 1. rewrite generate_orders_run.
  cbn [queue].
  set (orders := map with_initial_status source).
  assert (Hitems : items = map Some orders).
  { unfold items, orders. now rewrite map_map. }
  assert (Hlen : length orders = length source).
  { unfold orders. apply length_map. }
  assert (Hk : Forall (fun o => known_status (status o)) orders).
  { unfold orders. apply Forall_map, Forall_forall. intros r _.
    exists "Not Shipped". split; [reflexivity|].
    unfold STATUS_ORDER; simpl; tauto. }
  rewrite process_orders_unfold. cbn [queue trace].
  match goal with
  | |- context [process_loop _ _ _ ?w1] =>
      destruct (@process_loop_serves orders [] n 0 k w1 Hk) as
        (q' & t & Hrun & Hrest & Hdeq & Henq & Hwrites)
  end.
  { cbn [queue]. rewrite repr_items_enqueue_all, app_nil_r. exact Hitems. }
  { unfold n. rewrite Hlen. lia. }
  rewrite Hlen in Hrun. rewrite Hrun. cbn [queue trace].
  exists (generator_banner ++ flat_map dispatch_events source
          ++ [generator_closing n] ++ processor_banner ++ t
          ++ [processor_closing n])%list.
  assert (Hq' : q' = __init__) by now apply repr_items_inj.
  subst q'. split; [now rewrite <- !app_assoc|].
  rewrite !dequeue_answers_app, !enqueue_calls_app, !status_writes_app.
  rewrite Hdeq, Henq, Hwrites.
  assert (Hgen : enqueue_calls (flat_map dispatch_events source) = items
                 /\ dequeue_answers (flat_map dispatch_events source) = []
                 /\ status_writes (flat_map dispatch_events source) = []).
  { unfold items. clear. induction source as [|r source IH];
      [repeat split|].
    cbn [flat_map map]. unfold dispatch_events at 1 3 5.
    cbn [app enqueue_calls dequeue_answers status_writes].
    destruct IH as (-> & -> & ->). repeat split. }
  destruct Hgen as (-> & -> & ->). cbn. rewrite !app_nil_r.
  repeat split; [symmetry; exact Hitems|].
  unfold orders. clear. induction source as [|r source IH]; [reflexivity|].
  cbn [map flat_map length repeat concat]. rewrite IH. reflexivity.
Qed.

End TrackerExtras.
